(** * Creational design patterns: Singleton (SettingsManager) and
      Factory Method (LoggerFactory)

    A shallow embedding of the two notebooks' Python classes.  Python
    objects live in a heap and are named by references; the class
    attribute [SettingsManager._instance] is a slot of the interpreter
    state; a method is a computation in a state-and-exception monad. *)

From stdpp Require Import gmap strings list fin_maps.

Open Scope string_scope.

(** ** Python values and objects *)

(** An object reference is the index of the object in the heap (its [id]). *)
Abbreviation loc := nat (only parsing).

(** The classes the two notebooks define. [Logger] is the abstract base
    ([class Logger(ABC)]); the three loggers derive from it;
    [SettingsManager] derives from [object]. *)
Inductive class :=
  | Logger
  | ConsoleLogger
  | FileLogger
  | DatabaseLogger
  | SettingsManager.

Global Instance class_eq_dec : EqDecision class.
Proof. solve_decision. Defined.

(** The values the code passes around: [None], a [str], an [int], or a
    reference to a heap object. *)
Inductive value :=
  | VNone
  | VStr (s : string)
  | VInt (n : Z)
  | VRef (l : loc).

Global Instance value_eq_dec : EqDecision value.
Proof. solve_decision. Defined.

(** A heap object is an instance of a class with its attribute dictionary
    ([__dict__]), or a [dict] with [str] keys. *)
Inductive object :=
  | Instance (cls : class) (attrs : gmap string value)
  | Dict (items : gmap string value).

(** The interpreter state: the heap, the class attribute
    [SettingsManager._instance] ([None] until the first construction), and
    a counter of the entries into [SettingsManager._initialize], kept only
    to state how often the initialization ran. *)
Record World := mkWorld {
  heap : list object;
  _instance : value;
  initialize_calls : nat
}.

(** The state right after the class definitions have been executed:
    no object yet, [_instance: object = None]. *)
Definition fresh_world : World :=
  {| heap := []; _instance := VNone; initialize_calls := 0 |}.

(** ** Exceptions and the interpreter monad *)

Inductive exn :=
  | AttributeError
  | NameError
  | TypeError
  | ValueError (msg : string).

Inductive outcome (A : Type) :=
  | Ok (a : A)
  | Raise (e : exn).
Arguments Ok {A} a.
Arguments Raise {A} e.

(** A computation reads and writes the state and returns or raises; the
    state reached when an exception is raised is kept. *)
Definition Py (A : Type) : Type := World → outcome A * World.

Global Instance Py_ret : MRet Py := λ A a w, (Ok a, w).

Global Instance Py_bind : MBind Py := λ A B f m w,
  match m w with
  | (Ok a, w') => f a w'
  | (Raise e, w') => (Raise e, w')
  end.

Definition raise {A} (e : exn) : Py A := λ w, (Raise e, w).
Definition get_world : Py World := λ w, (Ok w, w).
Definition put_heap (h : list object) : Py unit := λ w,
  (Ok tt, {| heap := h; _instance := _instance w;
             initialize_calls := initialize_calls w |}).
Definition put_instance (i : value) : Py unit := λ w,
  (Ok tt, {| heap := heap w; _instance := i;
             initialize_calls := initialize_calls w |}).
Definition tick_initialize : Py unit := λ w,
  (Ok tt, {| heap := heap w; _instance := _instance w;
             initialize_calls := S (initialize_calls w) |}).

(** ** Object primitives *)

(** Allocation of a new object: its reference is the next free index. *)
Definition alloc (o : object) : Py loc :=
  w ← get_world;
  put_heap (heap w ++ [o]);;
  mret (length (heap w)).

(** [self.name]: an attribute read on an instance. *)
Definition getattr (self : loc) (name : string) : Py value :=
  w ← get_world;
  match heap w !! self with
  | Some (Instance _ attrs) =>
      match attrs !! name with
      | Some v => mret v
      | None => raise AttributeError
      end
  | _ => raise AttributeError
  end.

(** [self.name = v]: an attribute write on an instance. *)
Definition setattr (self : loc) (name : string) (v : value) : Py unit :=
  w ← get_world;
  match heap w !! self with
  | Some (Instance cls attrs) =>
      put_heap (<[self := Instance cls (<[name := v]> attrs)]> (heap w))
  | _ => raise AttributeError
  end.

(** [d[key] = v] on a value [d]. *)
Definition dict_setitem (d : value) (key : string) (v : value) : Py unit :=
  w ← get_world;
  match d with
  | VRef l =>
      match heap w !! l with
      | Some (Dict items) => put_heap (<[l := Dict (<[key := v]> items)]> (heap w))
      | _ => raise TypeError
      end
  | _ => raise TypeError
  end.

(** [d.get(key)] on a value [d]: the stored value, or [None]. *)
Definition dict_get (d : value) (key : string) : Py value :=
  w ← get_world;
  match d with
  | VRef l =>
      match heap w !! l with
      | Some (Dict items) =>
          match items !! key with
          | Some v => mret v
          | None => mret VNone
          end
      | _ => raise AttributeError
      end
  | _ => raise AttributeError
  end.

(** ** Classes, abstract methods and instantiation *)

(** The methods a class body defines, each with whether it is decorated
    with [@abstractmethod]. *)
Definition class_body (c : class) : list (string * bool) :=
  match c with
  | Logger => [("log", true)]
  | ConsoleLogger => [("log", false)]
  | FileLogger => [("log", false)]
  | DatabaseLogger => [("log", false)]
  | SettingsManager =>
      [("__new__", false); ("_initialize", false);
       ("set_setting", false); ("get_setting", false)]
  end.

(** The base class written in the class statement ([None]: [object] or
    [ABC]). *)
Definition base (c : class) : option class :=
  match c with
  | Logger => None
  | ConsoleLogger => Some Logger
  | FileLogger => Some Logger
  | DatabaseLogger => Some Logger
  | SettingsManager => None
  end.

Definition declared_abstract (c : class) : list string :=
  (filter (λ m, m.2 = true) (class_body c)).*1.

(** [cls.__abstractmethods__]: the abstract methods of the class body and
    those of the base that the body does not override. *)
Definition abstractmethods (c : class) : list string :=
  declared_abstract c ++
  match base c with
  | Some b => filter (λ n, n ∉ (class_body c).*1) (declared_abstract b)
  | None => []
  end.

(** [object.__new__(cls)]: a new instance without attributes; a class with
    abstract methods left cannot be instantiated. *)
Definition object_new (cls : class) : Py value :=
  match abstractmethods cls with
  | [] => l ← alloc (Instance cls ∅); mret (VRef l)
  | _ => raise TypeError
  end.

(** [object.__init__(self)] does nothing. *)
Definition object_init (self : value) : Py unit := mret tt.

(** [cls()] for a class that overrides neither [__new__] nor [__init__]. *)
Definition instantiate (cls : class) : Py value :=
  self ← object_new cls;
  object_init self;;
  mret self.

(** The receiver of a [SettingsManager] method call [v.method(...)]: [v]
    must refer to an instance of the class for the method to be found. *)
Definition as_SettingsManager (v : value) : Py loc :=
  w ← get_world;
  match v with
  | VRef l =>
      match heap w !! l with
      | Some (Instance SettingsManager _) => mret l
      | _ => raise AttributeError
      end
  | _ => raise AttributeError
  end.

(** ** class SettingsManager *)

(** The value of the class attribute [cls._instance]. *)
Definition get_instance : Py value :=
  w ← get_world;
  mret (_instance w).

(** [_initialize(self)]: binds [self._settings] to a new dictionary
    [{'theme': 'dark'}]. *)
Definition _initialize (self : loc) : Py value :=
  tick_initialize;;
  d ← alloc (Dict {["theme" := VStr "dark"]});
  setattr self "_settings" (VRef d);;
  mret VNone.

(** [__new__(cls)] with [cls = SettingsManager]. *)
Definition __new__ : Py value :=
  i ← get_instance;
  (if decide (i = VNone) then
     o ← object_new SettingsManager;
     put_instance o;;
     i' ← get_instance;
     self ← as_SettingsManager i';
     _initialize self;;
     mret tt
   else mret tt);;
  get_instance.

(** The object call [SettingsManager()]: [__new__], then the inherited
    [object.__init__] on the result. *)
Definition acquire : Py value :=
  self ← __new__;
  object_init self;;
  mret self.

(** [set_setting(self, setting_name, setting_value)]. *)
Definition set_setting (self : loc) (setting_name setting_value : string)
  : Py value :=
  d ← getattr self "_settings";
  dict_setitem d setting_name (VStr setting_value);;
  mret VNone.

(** [get_setting(self, setting_name)]. *)
Definition get_setting (self : loc) (setting_name : string) : Py value :=
  d ← getattr self "_settings";
  dict_get d setting_name.

(** ** class LoggerFactory *)

(** [v == "literal"]: of the values of the model only an equal [str] is
    equal to a [str]. *)
Definition eq_str (v : value) (s : string) : bool :=
  match v with
  | VStr s' => bool_decide (s' = s)
  | _ => false
  end.

(** [LoggerFactory.create_logger(logger_type)]. *)
Definition create_logger (logger_type : value) : Py value :=
  if eq_str logger_type "console" then instantiate ConsoleLogger
  else if eq_str logger_type "file" then instantiate FileLogger
  else if eq_str logger_type "database" then instantiate DatabaseLogger
  else raise (ValueError "Invalid logger type argument").

(** ** Client code *)

(** A statement of client code, one notebook cell each.  A receiver [x] is
    the number of the earlier statement whose result it names. *)
Inductive stmt :=
  | New_SettingsManager
  | Set_setting (x : nat) (name val : string)
  | Get_setting (x : nat) (name : string).

Global Instance stmt_eq_dec : EqDecision stmt.
Proof. solve_decision. Defined.

(** The value a name is bound to; a name that was never bound (no such
    statement, or it raised) gives [NameError]. *)
Definition lookup_name (env : list (outcome value)) (x : nat) : Py value :=
  match env !! x with
  | Some (Ok v) => mret v
  | _ => raise NameError
  end.

(** The method call [x.method(...)]. *)
Definition call_method (env : list (outcome value)) (x : nat)
  (method : loc → Py value) : Py value :=
  v ← lookup_name env x;
  self ← as_SettingsManager v;
  method self.

Definition exec (env : list (outcome value)) (s : stmt) : Py value :=
  match s with
  | New_SettingsManager => acquire
  | Set_setting x name val =>
      call_method env x (λ self, set_setting self name val)
  | Get_setting x name =>
      call_method env x (λ self, get_setting self name)
  end.

(** Runs the statements in order, [env] holding the results of the
    statements before them, and returns the result of each; as with
    notebook cells, a statement that raises does not stop the later ones. *)
Fixpoint run (prog : list stmt) (env : list (outcome value)) (w : World)
  : list (outcome value) * World :=
  match prog with
  | [] => ([], w)
  | s :: prog' =>
      let '(r, w1) := exec env s w in
      let '(rs, w2) := run prog' (env ++ [r]) w1 in
      (r :: rs, w2)
  end.

(** The results of the [SettingsManager()] calls among the results [outs]
    of [prog], in order. *)
Fixpoint acquired (prog : list stmt) (outs : list (outcome value))
  : list (outcome value) :=
  match prog, outs with
  | New_SettingsManager :: prog', r :: outs' => r :: acquired prog' outs'
  | _ :: prog', _ :: outs' => acquired prog' outs'
  | _, _ => []
  end.

(** The reference [self._settings] holds, for [self] a [SettingsManager]
    instance that has the attribute. *)
Definition settings_ref (w : World) (self : loc) : option loc :=
  match heap w !! self with
  | Some (Instance SettingsManager attrs) =>
      match attrs !! "_settings" with
      | Some (VRef d) => Some d
      | _ => None
      end
  | _ => None
  end.

(** The items of the dictionary at [d]. *)
Definition dict_at (w : World) (d : loc) : option (gmap string value) :=
  match heap w !! d with
  | Some (Dict items) => Some items
  | _ => None
  end.

(** [self._settings] as a mapping. *)
Definition settings_of (w : World) (self : loc)
  : option (gmap string value) :=
  d ← settings_ref w self; dict_at w d.

(** The cells of the Singleton notebook, followed through the scenario of
    the specification. *)
Definition scenario : list stmt :=
  [New_SettingsManager; Get_setting 0 "theme";
   Set_setting 0 "theme" "light"; New_SettingsManager; Get_setting 3 "theme";
   Set_setting 3 "font" "serif"; Get_setting 3 "font"; Get_setting 3 "theme"].

(** The state after the first [SettingsManager()] call made in [w]: the
    new instance and its dictionary are the two objects added. *)
Definition first_world (w : World) : World :=
  {| heap := heap w ++
       [Instance SettingsManager {["_settings" := VRef (S (length (heap w)))]};
        Dict {["theme" := VStr "dark"]}];
     _instance := VRef (length (heap w));
     initialize_calls := S (initialize_calls w) |}.

(** The state [w] with another heap. *)
Definition with_heap (w : World) (h : list object) : World :=
  {| heap := h; _instance := _instance w;
     initialize_calls := initialize_calls w |}.

(** The state [w] with one more object. *)
Definition with_new (w : World) (o : object) : World :=
  with_heap w (heap w ++ [o]).

(** The shared instance exists, is [self], has its settings, and was
    initialized once. *)
Definition initialized (w : World) (self : loc) : Prop :=
  _instance w = VRef self ∧ is_Some (settings_of w self) ∧
  initialize_calls w = 1.

(** ** Further client code *)

Global Instance exn_eq_dec : EqDecision exn.
Proof. solve_decision. Defined.

Global Instance outcome_eq_dec `{EqDecision A} : EqDecision (outcome A).
Proof. solve_decision. Defined.

(** The state of a program started without objects once the instance
    exists: the instance is object 0, the dictionary of its [_settings]
    is object 1 and holds the settings [m], all of them [str]. *)
Definition settled (m : gmap string string) : World :=
  {| heap := [Instance SettingsManager {["_settings" := VRef 1]};
              Dict (VStr <$> m)];
     _instance := VRef 0;
     initialize_calls := 1 |}.

(** The exception of a method call on the name [x] when [x] is not bound
    to the instance: [NameError] for a name that is not bound,
    [AttributeError] for a name bound to something else. *)
Definition receiver_error (env : list (outcome value)) (x : nat) : exn :=
  match env !! x with
  | Some (Ok _) => AttributeError
  | _ => NameError
  end.

(** What a statement binds its name to, in a program started without
    objects: [SettingsManager()] the instance, a method call never a
    reference. *)
Definition names (s : stmt) (r : outcome value) : Prop :=
  match s with
  | New_SettingsManager => r = Ok (VRef 0)
  | _ => ∀ l, r ≠ Ok (VRef l)
  end.

(** Whether a statement, [seen] being the statements before it, is a
    [SettingsManager()] or a method call on a name that an earlier
    [SettingsManager()] bound. *)
Definition reaches_instance (seen : list stmt) (s : stmt) : bool :=
  match s with
  | New_SettingsManager => true
  | Set_setting x _ _ | Get_setting x _ =>
      bool_decide (seen !! x = Some New_SettingsManager)
  end.

(** The [(name, value)] of the [set_setting] calls of [prog] that are made
    on a name bound by an earlier [SettingsManager()], in order; [seen] are
    the statements before [prog]. *)
Fixpoint effective_sets (prog seen : list stmt) : list (string * string) :=
  match prog with
  | [] => []
  | s :: prog' =>
      match s with
      | Set_setting x n v =>
          if reaches_instance seen s then [(n, v)] else []
      | _ => []
      end ++ effective_sets prog' (seen ++ [s])
  end.

(** The mapping [m] after the assignments [sets], made in order. *)
Definition apply_sets (m : gmap string string) (sets : list (string * string))
  : gmap string string :=
  foldl (λ m p, <[p.1 := p.2]> m) m sets.

Definition succeeded (r : outcome value) : bool :=
  match r with
  | Ok _ => true
  | Raise _ => false
  end.

(** The code cells of the Singleton notebook below the class, run as the
    statements [n], [n + 1], ... of a session: [sm_first = SettingsManager()],
    [sm_first.set_setting('theme', 'light')], [sm_first.get_setting('theme')],
    [sm_second = SettingsManager()], [sm_second.get_setting('theme')]. *)
Definition notebook_cells (n : nat) : list stmt :=
  [New_SettingsManager; Set_setting n "theme" "light"; Get_setting n "theme";
   New_SettingsManager; Get_setting (n + 3) "theme"].

(** ** The loggers *)

(** [log(self, message)] as each of the four logger classes defines it:
    the body is [pass]. *)
Definition log (self : loc) (message : value) : Py value := mret VNone.

(** The class that provides the method [name] to the instances of [c]:
    [c] itself when its body defines the method, else its base. *)
Definition resolve (c : class) (name : string) : option class :=
  if bool_decide (name ∈ (class_body c).*1) then Some c
  else match base c with
       | Some b =>
           if bool_decide (name ∈ (class_body b).*1) then Some b else None
       | None => None
       end.

(** The call [v.log(...)] with the arguments [args]: the method is looked
    up on the class of [v]; [log] takes one argument besides [self]. *)
Definition call_log (v : value) (args : list value) : Py value :=
  w ← get_world;
  match v with
  | VRef l =>
      match heap w !! l with
      | Some (Instance c _) =>
          match resolve c "log" with
          | Some _ =>
              match args with
              | [message] => log l message
              | _ => raise TypeError
              end
          | None => raise AttributeError
          end
      | _ => raise AttributeError
      end
  | _ => raise AttributeError
  end.

(** [issubclass(c, b)], for classes with at most one base. *)
Definition issubclass (c b : class) : bool :=
  bool_decide (c = b) || bool_decide (base c = Some b).

(** [isinstance(v, b)]. *)
Definition isinstance (w : World) (v : value) (b : class) : bool :=
  match v with
  | VRef l =>
      match heap w !! l with
      | Some (Instance c _) => issubclass c b
      | _ => false
      end
  | _ => false
  end.

(** [LoggerFactory.create_logger] called on each of [types] in turn, one
    notebook cell each: a call that raises does not stop the later ones. *)
Fixpoint create_loggers (types : list value) (w : World)
  : list (outcome value) * World :=
  match types with
  | [] => ([], w)
  | t :: types' =>
      let '(r, w1) := create_logger t w in
      let '(rs, w2) := create_loggers types' w1 in
      (r :: rs, w2)
  end.

(** The values returned among the results [outs]. *)
Definition returned (outs : list (outcome value)) : list value :=
  omap (λ r, match r with Ok v => Some v | Raise _ => None end) outs.

(** The value of the last assignment to [name] among [sets]. *)
Definition last_set (name : string) (sets : list (string * string))
  : option string :=
  snd <$> last (filter (λ p, p.1 = name) sets).

(** * Properties *)

Ltac py_unfold :=
  unfold acquire, __new__, _initialize, set_setting, get_setting,
    get_instance, as_SettingsManager, object_init, instantiate,
    alloc, getattr, setattr, dict_setitem, dict_get, lookup_name,
    tick_initialize, put_instance, put_heap, get_world, raise,
    mbind, Py_bind, mret, Py_ret in *.

Ltac py_simpl := cbn [heap _instance initialize_calls fst snd] in *.

(** ** Instantiation *)

Section instantiation.
Context (cls : class) (Hconcrete : abstractmethods cls = []).

Lemma object_new_concrete w :
  object_new cls w = (Ok (VRef (length (heap w))), with_new w (Instance cls ∅)).
Proof. unfold object_new. by rewrite Hconcrete. Qed.

Lemma instantiate_concrete w :
  instantiate cls w = (Ok (VRef (length (heap w))), with_new w (Instance cls ∅)).
Proof.
  unfold instantiate, mbind, Py_bind. by rewrite object_new_concrete.
Qed.
End instantiation.

Lemma heap_next_fresh w : heap w !! length (heap w) = None.
Proof. by apply lookup_ge_None_2. Qed.

Lemma with_new_lookup w o : heap (with_new w o) !! length (heap w) = Some o.
Proof. cbn. by apply list_lookup_middle. Qed.

Lemma with_new_old w o l x :
  heap w !! l = Some x → heap (with_new w o) !! l = Some x.
Proof. cbn. apply lookup_app_l_Some. Qed.

(** ** The two branches of [__new__] *)

Lemma acquire_initialized w :
  _instance w ≠ VNone → acquire w = (Ok (_instance w), w).
Proof.
  intros H. py_unfold. destruct (decide (_instance w = VNone)); [done|].
  reflexivity.
Qed.

Lemma acquire_uninitialized w :
  _instance w = VNone →
  acquire w = (Ok (VRef (length (heap w))), first_world w).
Proof.
  intros H. unfold acquire, __new__.
  py_unfold. py_simpl. rewrite H.
  destruct (decide (VNone = VNone)); [|done].
  rewrite (object_new_concrete SettingsManager eq_refl).
  unfold with_new, with_heap. py_simpl.
  rewrite (list_lookup_middle (heap w) [] _ _ eq_refl). py_simpl.
  rewrite <- app_assoc. cbn [app].
  rewrite (list_lookup_middle (heap w) _ _ _ eq_refl). py_simpl.
  rewrite length_app, Nat.add_comm. cbn [length Nat.add].
  rewrite insert_app_r_alt, Nat.sub_diag by lia. reflexivity.
Qed.

(** ** Reading and writing the settings *)

Lemma settings_ref_Some w self d :
  settings_ref w self = Some d ↔
  ∃ attrs, heap w !! self = Some (Instance SettingsManager attrs) ∧
    attrs !! "_settings" = Some (VRef d).
Proof.
  unfold settings_ref. split.
  - destruct (heap w !! self) as [[[] attrs|]|] eqn:Hs; try done.
    destruct (attrs !! "_settings") as [[| | |d']|] eqn:Ha; try done.
    intros [= <-]. eauto.
  - intros (attrs & -> & ->). done.
Qed.

Lemma dict_at_Some w d m : dict_at w d = Some m ↔ heap w !! d = Some (Dict m).
Proof.
  unfold dict_at. split.
  - destruct (heap w !! d) as [[|items]|]; try done. by intros [= <-].
  - by intros ->.
Qed.

Lemma settings_of_Some w self m :
  settings_of w self = Some m ↔
  ∃ d, settings_ref w self = Some d ∧ dict_at w d = Some m.
Proof.
  unfold settings_of. split.
  - destruct (settings_ref w self) as [d|]; [|done]. cbn. eauto.
  - intros (d & -> & Hd). done.
Qed.

Lemma get_setting_lookup w self m name :
  settings_of w self = Some m →
  get_setting self name w = (Ok (default VNone (m !! name)), w).
Proof.
  intros (d & (attrs & Hs & Ha)%settings_ref_Some & Hd%dict_at_Some)
    %settings_of_Some.
  py_unfold. rewrite Hs, Ha, Hd. by destruct (m !! name).
Qed.

Lemma get_setting_pure self name w : (get_setting self name w).2 = w.
Proof.
  py_unfold.
  destruct (heap w !! self) as [[c attrs|]|]; try done.
  destruct (attrs !! "_settings") as [[| | |d]|]; try done.
  destruct (heap w !! d) as [[|items]|]; try done.
  by destruct (items !! name).
Qed.

Lemma set_setting_store w self m d name val :
  settings_ref w self = Some d → dict_at w d = Some m →
  set_setting self name val w =
    (Ok VNone, with_heap w (<[d := Dict (<[name := VStr val]> m)]> (heap w))).
Proof.
  intros (attrs & Hs & Ha)%settings_ref_Some Hd%dict_at_Some.
  py_unfold. rewrite Hs, Ha. py_simpl. rewrite Hd. reflexivity.
Qed.

(** Whatever the receiver, [set_setting] leaves the state as it is or
    replaces the items of one dictionary. *)
Lemma set_setting_cases self name val w :
  (set_setting self name val w).2 = w ∨
  ∃ d items items', heap w !! d = Some (Dict items) ∧
    (set_setting self name val w).2
    = with_heap w (<[d := Dict items']> (heap w)).
Proof.
  py_unfold.
  destruct (heap w !! self) as [[c attrs|]|]; try by left.
  destruct (attrs !! "_settings") as [[| | |d]|]; try by left.
  py_simpl.
  destruct (heap w !! d) as [[|items]|] eqn:Hd; try by left.
  right. by exists d, items, (<[name := VStr val]> items).
Qed.

(** Replacing the items of a dictionary changes no other object. *)
Lemma store_other w d o l :
  l ≠ d → heap (with_heap w (<[d := o]> (heap w))) !! l = heap w !! l.
Proof. intros Hne. cbn. by rewrite list_lookup_insert_ne. Qed.

Lemma store_instance w d items o self cls attrs :
  heap w !! d = Some (Dict items) →
  heap w !! self = Some (Instance cls attrs) →
  heap (with_heap w (<[d := o]> (heap w))) !! self = heap w !! self.
Proof. intros Hd Hs. apply store_other. congruence. Qed.

Lemma settings_ref_store w self d items items' :
  heap w !! d = Some (Dict items) →
  settings_ref (with_heap w (<[d := Dict items']> (heap w))) self
  = settings_ref w self.
Proof.
  intros Hd. unfold settings_ref.
  destruct (decide (self = d)) as [->|Hne].
  - cbn. rewrite list_lookup_insert_eq by (by eapply lookup_lt_Some).
    by rewrite Hd.
  - by rewrite store_other.
Qed.

Lemma dict_at_store w d d' items items' :
  heap w !! d = Some (Dict items) →
  dict_at (with_heap w (<[d := Dict items']> (heap w))) d'
  = if decide (d = d') then Some items' else dict_at w d'.
Proof.
  unfold dict_at. intros Hd. case_decide as Hdd.
  - subst d'. cbn. by rewrite list_lookup_insert_eq by (by eapply lookup_lt_Some).
  - by rewrite store_other.
Qed.

Lemma settings_of_store w self d items items' :
  heap w !! d = Some (Dict items) →
  settings_ref w self = Some d →
  settings_of (with_heap w (<[d := Dict items']> (heap w))) self = Some items'.
Proof.
  intros Hd Hr. unfold settings_of.
  rewrite (settings_ref_store _ _ _ items), Hr by done. cbn.
  rewrite (dict_at_store _ _ _ items) by done. by case_decide.
Qed.

Lemma settings_of_store_is_Some w self d items items' :
  heap w !! d = Some (Dict items) →
  is_Some (settings_of w self) →
  is_Some (settings_of (with_heap w (<[d := Dict items']> (heap w))) self).
Proof.
  intros Hd [m (d0 & Hr & Hd0)%settings_of_Some].
  unfold settings_of. rewrite (settings_ref_store _ _ _ items), Hr by done.
  cbn. rewrite (dict_at_store _ _ _ items) by done.
  case_decide; [done|]. by rewrite Hd0.
Qed.

(** ** Client statements *)

(** A method call on a name raises before the method is entered, or runs
    the method on the instance the name is bound to. *)
Lemma call_method_cases env x method w :
  (∃ e, call_method env x method w = (Raise e, w)) ∨
  (∃ self attrs, env !! x = Some (Ok (VRef self)) ∧
     heap w !! self = Some (Instance SettingsManager attrs) ∧
     call_method env x method w = method self w).
Proof.
  unfold call_method. py_unfold.
  destruct (env !! x) as [[[| | |l]|e]|]; eauto.
  destruct (heap w !! l) as [[[] attrs|]|] eqn:Hl; eauto 10.
Qed.

Lemma exec_method_cases env s w :
  s ≠ New_SettingsManager →
  (exec env s w).2 = w ∨
  ∃ d items items', heap w !! d = Some (Dict items) ∧
    (exec env s w).2 = with_heap w (<[d := Dict items']> (heap w)).
Proof.
  intros Hs. destruct s as [|x name val|x name]; [done| |]; cbn [exec].
  - destruct (call_method_cases env x (λ self, set_setting self name val) w)
      as [[e ->]|(self & attrs & _ & _ & ->)]; [by left|].
    apply set_setting_cases.
  - left.
    destruct (call_method_cases env x (λ self, get_setting self name) w)
      as [[e ->]|(self & attrs & _ & _ & ->)]; [done|].
    apply get_setting_pure.
Qed.

(** No method call touches the class attribute or runs [_initialize]. *)
Lemma exec_method_instance env s w :
  s ≠ New_SettingsManager →
  _instance (exec env s w).2 = _instance w ∧
  initialize_calls (exec env s w).2 = initialize_calls w.
Proof.
  intros Hs.
  by destruct (exec_method_cases env s w Hs) as [->|(d&i&i'&_&->)].
Qed.

(** Once the instance exists, a statement keeps the class attribute, runs
    no initialization and keeps the settings of every instance in place. *)
Lemma exec_stable env s w :
  _instance w ≠ VNone →
  _instance (exec env s w).2 = _instance w ∧
  initialize_calls (exec env s w).2 = initialize_calls w ∧
  ∀ self, is_Some (settings_of w self) →
          is_Some (settings_of (exec env s w).2 self).
Proof.
  intros Hi. destruct (decide (s = New_SettingsManager)) as [->|Hs].
  - cbn [exec]. by rewrite acquire_initialized.
  - destruct (exec_method_cases env s w Hs) as [->|(d&i&i'&Hd&->)]; [done|].
    split_and!; [done..|]. intros self.
    by apply (settings_of_store_is_Some _ _ _ i).
Qed.

Lemma run_stable prog env w :
  _instance w ≠ VNone →
  _instance (run prog env w).2 = _instance w ∧
  initialize_calls (run prog env w).2 = initialize_calls w ∧
  (∀ self, is_Some (settings_of w self) →
           is_Some (settings_of (run prog env w).2 self)) ∧
  ∀ r, r ∈ acquired prog (run prog env w).1 → r = Ok (_instance w).
Proof.
  revert env w. induction prog as [|s prog IH]; intros env w Hw.
  - split_and!; [done..|]. cbn. by intros r ?%elem_of_nil.
  - cbn [run].
    destruct (exec_stable env s w Hw) as (Hi1 & Hc1 & Hm1).
    pose proof (acquire_initialized w Hw) as Hr.
    destruct (exec env s w) as [r1 w1] eqn:E1. cbn [fst snd] in *.
    destruct (IH (env ++ [r1])%list w1 ltac:(congruence))
      as (Hi2 & Hc2 & Hm2 & Ha2).
    destruct (run prog (env ++ [r1])%list w1) as [rs w2]. cbn [fst snd] in *.
    split_and!; [congruence|congruence|auto|].
    intros r. rewrite Hi1 in Ha2.
    destruct s; cbn [acquired]; [|exact (Ha2 r)..].
    cbn [exec] in E1. rewrite E1 in Hr. injection Hr as -> _.
    intros [->|?]%elem_of_cons; auto.
Qed.

Lemma first_world_initialized w :
  initialize_calls w = 0 → initialized (first_world w) (length (heap w)).
Proof.
  intros Hc. split_and!; [done| |by cbn; rewrite Hc].
  exists {["theme" := VStr "dark"]}. apply settings_of_Some.
  exists (S (length (heap w))). split.
  - apply settings_ref_Some. eexists. split; [|apply lookup_singleton_eq].
    cbn. by apply list_lookup_middle.
  - apply dict_at_Some. cbn. rewrite (cons_middle _ (heap w)), app_assoc.
    apply list_lookup_middle. rewrite length_app. cbn. lia.
Qed.

Lemma run_initialized prog env w self :
  initialized w self →
  initialized (run prog env w).2 self ∧
  ∀ r, r ∈ acquired prog (run prog env w).1 → r = Ok (VRef self).
Proof.
  intros (Hi & Hm & Hc).
  destruct (run_stable prog env w) as (Hi' & Hc' & Hm' & Ha');
    [by rewrite Hi|].
  rewrite Hi in Ha'. split; [|done].
  split_and!; [congruence|auto|congruence].
Qed.

(** From a state without instance, every [SettingsManager()] of a program
    returns a reference to the instance the final state holds. *)
Lemma run_uninitialized prog env w :
  _instance w = VNone → initialize_calls w = 0 →
  ∀ r, r ∈ acquired prog (run prog env w).1 →
  ∃ self, r = Ok (VRef self) ∧ initialized (run prog env w).2 self.
Proof.
  revert env w. induction prog as [|s prog IH]; intros env w Hi Hc r.
  - cbn. by intros ?%elem_of_nil.
  - cbn [run]. destruct (decide (s = New_SettingsManager)) as [->|Hs].
    + cbn [exec]. rewrite (acquire_uninitialized _ Hi).
      pose proof (first_world_initialized w Hc) as Hw1.
      destruct (run_initialized prog
                  (env ++ [Ok (VRef (length (heap w)))])%list _ _ Hw1)
        as [H1 H2].
      destruct (run prog _ (first_world w)) as [rs w2].
      cbn [fst snd acquired] in *.
      intros [->|?]%elem_of_cons; eauto.
    + destruct (exec_method_instance env s w Hs) as [Hi1 Hc1].
      destruct (exec env s w) as [r1 w1]. cbn [fst snd] in *.
      specialize (IH (env ++ [r1])%list w1
                    ltac:(congruence) ltac:(congruence) r).
      destruct (run prog (env ++ [r1])%list w1) as [rs w2].
      cbn [fst snd] in *.
      destruct s; [done|exact IH..].
Qed.

(** A reference a program obtained from [SettingsManager()] is the shared
    instance of the state the program ends in. *)
Lemma acquired_initialized prog outs w i self :
  run prog [] fresh_world = (outs, w) →
  acquired prog outs !! i = Some (Ok (VRef self)) →
  initialized w self.
Proof.
  intros Hrun Hacq%list_elem_of_lookup_2.
  destruct (run_uninitialized prog [] fresh_world eq_refl eq_refl
              (Ok (VRef self))) as (self' & [= <-] & Hinit).
  - by rewrite Hrun.
  - by rewrite Hrun in Hinit.
Qed.

(** ** The singleton *)

(** C1, single-instance property: in every program started in the state
    without instance, whatever method calls lie between them, each
    [SettingsManager()] call returns a reference, and each returns the very
    reference the first call returned. *)
Theorem single_instance prog outs w first rest :
  run prog [] fresh_world = (outs, w) →
  acquired prog outs = first :: rest →
  (∃ self, first = Ok (VRef self)) ∧ Forall (eq first) rest.
Proof.
  intros Hrun Hacq.
  pose proof (run_uninitialized prog [] fresh_world eq_refl eq_refl) as H.
  rewrite Hrun in H. cbn [fst snd] in H. rewrite Hacq in H.
  destruct (H first) as (self & -> & Hi & _); [by left|].
  split; [by exists self|].
  apply Forall_forall. intros r Hr.
  destruct (H r) as (self' & -> & Hi' & _); [by right|].
  congruence.
Qed.

Lemma single_instance_witness :
  (∃ self : loc, Ok (VRef 0) = Ok (VRef self)) ∧
  Forall (eq (Ok (VRef 0))) [Ok (VRef 0); Ok (VRef 0)].
Proof.
  apply (single_instance
           [New_SettingsManager; Set_setting 0 "theme" "light";
            New_SettingsManager; Get_setting 2 "theme"; New_SettingsManager]
           [Ok (VRef 0); Ok VNone; Ok (VRef 0); Ok (VStr "light"); Ok (VRef 0)]
           (with_heap (first_world fresh_world)
              [Instance SettingsManager {["_settings" := VRef 1]};
               Dict (<["theme" := VStr "light"]> {["theme" := VStr "dark"]})])).
  - vm_compute. reflexivity.
  - reflexivity.
Defined.

(** C2, one-time initialization: the first [SettingsManager()] call in the
    state without instance returns an instance on which
    [get_setting('theme')] gives ['dark'], it has run [_initialize] once, and
    after any program that follows, with any number of further
    [SettingsManager()] calls, [_initialize] has still run once. *)
Theorem one_time_initialization :
  ∃ self w1,
    acquire fresh_world = (Ok (VRef self), w1) ∧
    get_setting self "theme" w1 = (Ok (VStr "dark"), w1) ∧
    initialize_calls w1 = 1 ∧
    ∀ prog env, initialize_calls (run prog env w1).2 = 1.
Proof.
  exists 0, (first_world fresh_world). split_and!.
  - by apply acquire_uninitialized.
  - reflexivity.
  - reflexivity.
  - intros prog env.
    by destruct (run_stable prog env (first_world fresh_world)) as (_ & -> & _).
Qed.

(** C5, construction protocol: in a state where the instance exists,
    [SettingsManager()] returns the existing reference and leaves the whole
    state as it is; and after any program run from there the class
    attribute still holds that reference, [_initialize] has not run again,
    and every [SettingsManager()] of the program returned that reference. *)
Theorem initialized_is_terminal w self :
  _instance w = VRef self →
  acquire w = (Ok (VRef self), w) ∧
  ∀ prog env,
    _instance (run prog env w).2 = VRef self ∧
    initialize_calls (run prog env w).2 = initialize_calls w ∧
    Forall (eq (Ok (VRef self))) (acquired prog (run prog env w).1).
Proof.
  intros Hi. split.
  - rewrite acquire_initialized; by rewrite Hi.
  - intros prog env.
    destruct (run_stable prog env w) as (Hi' & Hc' & _ & Ha');
      [by rewrite Hi|].
    split_and!; [congruence|done|].
    apply Forall_forall. intros r Hr. rewrite (Ha' r Hr). by rewrite Hi.
Qed.

Lemma initialized_is_terminal_witness :
  acquire (first_world fresh_world) = (Ok (VRef 0), first_world fresh_world) ∧
  ∀ prog env,
    _instance (run prog env (first_world fresh_world)).2 = VRef 0 ∧
    initialize_calls (run prog env (first_world fresh_world)).2
    = initialize_calls (first_world fresh_world) ∧
    Forall (eq (Ok (VRef 0)))
      (acquired prog (run prog env (first_world fresh_world)).1).
Proof. apply (initialized_is_terminal (first_world fresh_world) 0). reflexivity. Defined.

(** C7, the scenario end to end: the first call returns the instance and
    ['theme'] is ['dark']; after [set_setting('theme', 'light')] a fresh
    [SettingsManager()] returns the same instance and its ['theme'] is
    ['light']; after [set_setting('font', 'serif')], ['font'] is ['serif']
    and ['theme'] is still ['light']. *)
Theorem scenario_results :
  (run scenario [] fresh_world).1 =
  [Ok (VRef 0); Ok (VStr "dark");
   Ok VNone; Ok (VRef 0); Ok (VStr "light");
   Ok VNone; Ok (VStr "serif"); Ok (VStr "light")].
Proof. vm_compute. reflexivity. Qed.

(** C9, [get_setting] is read-only: called on any reference with any name,
    directly or through a name of client code, whether it returns a value,
    [None] or raises, it leaves the whole state (the heap with every
    dictionary, the class attribute) as it was. *)
Theorem get_setting_read_only self name env x w :
  (get_setting self name w).2 = w ∧
  (exec env (Get_setting x name) w).2 = w.
Proof.
  split; [apply get_setting_pure|]. cbn [exec].
  destruct (call_method_cases env x (λ self, get_setting self name) w)
    as [[e ->]|(self' & attrs & _ & _ & ->)]; [done|].
  apply get_setting_pure.
Qed.

(** ** Methods on a reference obtained from [SettingsManager()] *)

Section shared_instance.
(** A program run from the state without instance, the state [w] it ends
    in, and the reference [self] its [i]-th [SettingsManager()] call
    returned. *)
Context (prog : list stmt) (outs : list (outcome value)) (w : World).
Context (i : nat) (self : loc).
Hypothesis Hrun : run prog [] fresh_world = (outs, w).
Hypothesis Hacq : acquired prog outs !! i = Some (Ok (VRef self)).

Lemma shared_settings :
  ∃ d m, settings_ref w self = Some d ∧ dict_at w d = Some m ∧
         settings_of w self = Some m ∧ _instance w = VRef self.
Proof using Hrun Hacq.
  destruct (acquired_initialized _ _ _ _ _ Hrun Hacq) as (Hi & [m Hm] & _).
  pose proof Hm as (d & Hr & Hd)%settings_of_Some. by exists d, m.
Qed.

(** C3, mutation visibility: for [self] and [other] both obtained from
  [SettingsManager()], [self.set_setting('theme', 'light')] succeeds and
  [other.get_setting('theme')] right after it returns ['light']; a
  [SettingsManager()] made after the update returns [self] again. *)
Theorem mutation_visibility j other :
acquired prog outs !! j = Some (Ok (VRef other)) →
∃ w', set_setting self "theme" "light" w = (Ok VNone, w') ∧
      get_setting other "theme" w' = (Ok (VStr "light"), w') ∧
      acquire w' = (Ok (VRef self), w').
Proof using Hrun Hacq.
intros Hother.
destruct shared_settings as (d & m & Hr & Hd & Hm & Hi).
destruct (acquired_initialized _ _ _ _ _ Hrun Hother) as (Hi' & _).
assert (other = self) as -> by congruence.
eexists. split; [by apply (set_setting_store _ _ m d)|].
apply dict_at_Some in Hd. split.
- erewrite get_setting_lookup; [|by apply (settings_of_store _ _ _ m)].
  by rewrite lookup_insert_eq.
- rewrite acquire_initialized; cbn; by rewrite Hi.
Qed.

(** C4, absent-key behaviour: [get_setting(name)] on the shared instance
  never raises; for a name that is not a key of the settings it returns
  [None], for a key it returns the value stored under it. *)
Theorem get_setting_absent_or_stored name :
∃ m, settings_of w self = Some m ∧
     match m !! name with
     | None => get_setting self name w = (Ok VNone, w)
     | Some v => get_setting self name w = (Ok v, w)
     end.
Proof using Hrun Hacq.
destruct shared_settings as (d & m & _ & _ & Hm & _).
exists m. split; [done|].
rewrite (get_setting_lookup _ _ _ name Hm). by destruct (m !! name).
Qed.

(** C6, [set_setting] is total: for every name and value the call on the
  shared instance returns [None] without raising, and the settings
  afterwards are the settings before with [name] bound to [value],
  inserted when [name] was absent and overwritten when it was present. *)
Theorem set_setting_total name val :
∃ m w', settings_of w self = Some m ∧
        set_setting self name val w = (Ok VNone, w') ∧
        settings_of w' self = Some (<[name := VStr val]> m) ∧
        get_setting self name w' = (Ok (VStr val), w').
Proof using Hrun Hacq.
destruct shared_settings as (d & m & Hr & Hd & Hm & _).
exists m. eexists. split; [done|].
split; [by apply (set_setting_store _ _ m d)|].
apply dict_at_Some in Hd.
assert (settings_of (with_heap w (<[d:=Dict (<[name:=VStr val]> m)]> (heap w)))
          self = Some (<[name := VStr val]> m)) as Hm'
  by by apply (settings_of_store _ _ _ m).
split; [done|].
rewrite (get_setting_lookup _ _ _ name Hm'). by rewrite lookup_insert_eq.
Qed.

(** C8, frame condition: [set_setting(name, value)] on the shared instance
  updates the dictionary [self._settings] refers to where it is: the
  attribute refers to the same dictionary afterwards, in which only the
  entry of [name] differs; the class attribute, the instance object and
  every object other than that dictionary are unchanged. *)
Theorem set_setting_frame name val :
∃ d m m' w',
  settings_ref w self = Some d ∧ dict_at w d = Some m ∧
  set_setting self name val w = (Ok VNone, w') ∧
  settings_ref w' self = Some d ∧ dict_at w' d = Some m' ∧
  (∀ k, k ≠ name → m' !! k = m !! k) ∧
  _instance w' = _instance w ∧
  heap w' !! self = heap w !! self ∧
  (∀ l, l ≠ d → heap w' !! l = heap w !! l).
Proof using Hrun Hacq.
destruct shared_settings as (d & m & Hr & Hd & Hm & _).
exists d, m, (<[name := VStr val]> m). eexists.
split; [done|]. split; [done|].
split; [by apply (set_setting_store _ _ m d)|].
pose proof Hd as Hd'%dict_at_Some.
pose proof Hr as (attrs & Hs & _)%settings_ref_Some.
split_and!.
- by rewrite (settings_ref_store _ _ _ m).
- rewrite (dict_at_store _ _ _ m) by done. by case_decide.
- intros k Hk. by rewrite lookup_insert_ne.
- done.
- by eapply store_instance.
- intros l Hl. by apply store_other.
Qed.

End shared_instance.

Lemma mutation_visibility_witness :
  ∃ w', set_setting 0 "theme" "light" (first_world fresh_world) = (Ok VNone, w') ∧
        get_setting 0 "theme" w' = (Ok (VStr "light"), w') ∧
        acquire w' = (Ok (VRef 0), w').
Proof.
  apply (mutation_visibility [New_SettingsManager; New_SettingsManager]
           [Ok (VRef 0); Ok (VRef 0)] (first_world fresh_world) 0 0
           eq_refl eq_refl 1 0).
  reflexivity.
Defined.

Lemma get_setting_absent_or_stored_witness :
  ∃ m, settings_of (first_world fresh_world) 0 = Some m ∧
       match m !! "nonexistent" with
       | None => get_setting 0 "nonexistent" (first_world fresh_world)
                 = (Ok VNone, first_world fresh_world)
       | Some v => get_setting 0 "nonexistent" (first_world fresh_world)
                   = (Ok v, first_world fresh_world)
       end.
Proof.
  apply (get_setting_absent_or_stored [New_SettingsManager] [Ok (VRef 0)]
           (first_world fresh_world) 0 0); reflexivity.
Defined.

Lemma set_setting_total_witness :
  ∃ m w', settings_of (first_world fresh_world) 0 = Some m ∧
          set_setting 0 "font" "" (first_world fresh_world) = (Ok VNone, w') ∧
          settings_of w' 0 = Some (<["font" := VStr ""]> m) ∧
          get_setting 0 "font" w' = (Ok (VStr ""), w').
Proof.
  apply (set_setting_total [New_SettingsManager] [Ok (VRef 0)]
           (first_world fresh_world) 0 0); reflexivity.
Defined.

Lemma set_setting_frame_witness :
  ∃ d m m' w',
    settings_ref (first_world fresh_world) 0 = Some d ∧
    dict_at (first_world fresh_world) d = Some m ∧
    set_setting 0 "font" "serif" (first_world fresh_world) = (Ok VNone, w') ∧
    settings_ref w' 0 = Some d ∧ dict_at w' d = Some m' ∧
    (∀ k, k ≠ "font" → m' !! k = m !! k) ∧
    _instance w' = _instance (first_world fresh_world) ∧
    heap w' !! 0 = heap (first_world fresh_world) !! 0 ∧
    (∀ l, l ≠ d → heap w' !! l = heap (first_world fresh_world) !! l).
Proof.
  apply (set_setting_frame [New_SettingsManager] [Ok (VRef 0)]
           (first_world fresh_world) 0 0); reflexivity.
Defined.

(** ** The logger factory *)

Lemma create_logger_other v w :
  v ∉ [VStr "console"; VStr "file"; VStr "database"] →
  create_logger v w = (Raise (ValueError "Invalid logger type argument"), w).
Proof.
  intros Hv. unfold create_logger.
  destruct v as [|s| |]; try done. cbn [eq_str].
  repeat case_bool_decide; subst; try done; exfalso; apply Hv; set_solver.
Qed.

(** A successful [create_logger] returns the object it has just added to
    the heap, and touches no object that was there. *)
Lemma create_logger_new v r w w1 :
  create_logger v w = (Ok r, w1) →
  r = VRef (length (heap w)) ∧
  ∃ cls, cls ∈ [ConsoleLogger; FileLogger; DatabaseLogger] ∧
         w1 = with_new w (Instance cls ∅).
Proof.
  unfold create_logger, raise.
  destruct (eq_str v "console");
    [|destruct (eq_str v "file"); [|destruct (eq_str v "database")]];
    try done;
    rewrite instantiate_concrete by done; intros [= <- <-];
    (split; [done|]); eexists; (split; [|done]); set_solver.
Qed.

(** C10, the dispatch of [LoggerFactory.create_logger]: ['console'],
    ['file'] and ['database'] give a new instance of [ConsoleLogger],
    [FileLogger] and [DatabaseLogger]; every other argument raises
    [ValueError] and changes nothing; an instance returned is an object
    that did not exist before the call, objects that existed are left as
    they were, and so a later call never returns an instance an earlier
    call returned. *)
Theorem create_logger_dispatch w :
  create_logger (VStr "console") w
  = (Ok (VRef (length (heap w))), with_new w (Instance ConsoleLogger ∅)) ∧
  create_logger (VStr "file") w
  = (Ok (VRef (length (heap w))), with_new w (Instance FileLogger ∅)) ∧
  create_logger (VStr "database") w
  = (Ok (VRef (length (heap w))), with_new w (Instance DatabaseLogger ∅)) ∧
  (∀ v, v ∉ [VStr "console"; VStr "file"; VStr "database"] →
        create_logger v w
        = (Raise (ValueError "Invalid logger type argument"), w)) ∧
  (∀ v r w1, create_logger v w = (Ok r, w1) →
     ∃ l, r = VRef l ∧ heap w !! l = None ∧ is_Some (heap w1 !! l) ∧
          (∀ l0 o, heap w !! l0 = Some o → heap w1 !! l0 = Some o) ∧
          ∀ v' r' w2, create_logger v' w1 = (Ok r', w2) → r' ≠ r).
Proof.
  split_and!.
  - by rewrite <- (instantiate_concrete ConsoleLogger eq_refl w).
  - by rewrite <- (instantiate_concrete FileLogger eq_refl w).
  - by rewrite <- (instantiate_concrete DatabaseLogger eq_refl w).
  - intros v. apply create_logger_other.
  - intros v r w1 (-> & cls & _ & ->)%create_logger_new.
    exists (length (heap w)). split_and!.
    + done.
    + apply heap_next_fresh.
    + rewrite with_new_lookup. eauto.
    + intros l0 o. apply with_new_old.
    + intros v' r' w2 (-> & _)%create_logger_new. cbn.
      rewrite length_app. cbn. intros [= ?]. lia.
Qed.


Lemma first_world_settled :
  first_world fresh_world = settled {["theme" := "dark"]}.
Proof. reflexivity. Qed.

Lemma exec_fresh env s :
  exec env s fresh_world =
  match s with
  | New_SettingsManager => (Ok (VRef 0), settled {["theme" := "dark"]})
  | Set_setting x _ _ | Get_setting x _ =>
      (Raise (receiver_error env x), fresh_world)
  end.
Proof.
  destruct s as [|x n v|x n]; cbn [exec].
  - by rewrite acquire_uninitialized.
  - unfold call_method, receiver_error. py_unfold.
    destruct (env !! x) as [[[| | |l]|e]|]; try done.
  - unfold call_method, receiver_error. py_unfold.
    destruct (env !! x) as [[[| | |l]|e]|]; try done.
Qed.

Lemma set_setting_settled m n v :
  set_setting 0 n v (settled m) = (Ok VNone, settled (<[n := v]> m)).
Proof.
  unfold settled. rewrite fmap_insert. reflexivity.
Qed.

Lemma get_setting_settled m n :
  get_setting 0 n (settled m)
  = (Ok (from_option VStr VNone (m !! n)), settled m).
Proof.
  rewrite (get_setting_lookup _ _ (VStr <$> m)) by done.
  rewrite lookup_fmap. by destruct (m !! n).
Qed.

Lemma exec_settled env s m :
  exec env s (settled m) =
  match s with
  | New_SettingsManager => (Ok (VRef 0), settled m)
  | Set_setting x n v =>
      if bool_decide (env !! x = Some (Ok (VRef 0)))
      then (Ok VNone, settled (<[n := v]> m))
      else (Raise (receiver_error env x), settled m)
  | Get_setting x n =>
      if bool_decide (env !! x = Some (Ok (VRef 0)))
      then (Ok (from_option VStr VNone (m !! n)), settled m)
      else (Raise (receiver_error env x), settled m)
  end.
Proof.
  destruct s as [|x n v|x n]; cbn [exec].
  - by rewrite acquire_initialized.
  - case_bool_decide as Hx.
    + unfold call_method, lookup_name. rewrite Hx.
      rewrite <- set_setting_settled. reflexivity.
    + unfold call_method, receiver_error, lookup_name.
      destruct (env !! x) as [[[| | |[|[|l]]]|e]|]; try done.
  - case_bool_decide as Hx.
    + unfold call_method, lookup_name. rewrite Hx.
      rewrite <- get_setting_settled. reflexivity.
    + unfold call_method, receiver_error, lookup_name.
      destruct (env !! x) as [[[| | |[|[|l]]]|e]|]; try done.
Qed.

Lemma names_lookup seen env x :
  Forall2 names seen env →
  env !! x = Some (Ok (VRef 0)) ↔ seen !! x = Some New_SettingsManager.
Proof.
  intros H. split.
  - intros Hx. destruct (Forall2_lookup_r _ _ _ _ _ H Hx) as (s & Hs & Hn).
    destruct s; [done|by destruct (Hn 0)..].
  - intros Hx. destruct (Forall2_lookup_l _ _ _ _ _ H Hx) as (r & Hr & Hn).
    cbn in Hn. by subst r.
Qed.

Lemma names_snoc seen env s r :
  Forall2 names seen env → names s r →
  Forall2 names (seen ++ [s])%list (env ++ [r])%list.
Proof. intros. apply Forall2_app; [done|]. by constructor. Qed.

(** In a state with the instance, whether a statement succeeds and what it
    does to the settings depends only on whether its receiver names an
    earlier [SettingsManager()]. *)
Lemma exec_settled_names seen env s m :
  Forall2 names seen env →
  ∃ r, exec env s (settled m)
       = (r, settled (apply_sets m (effective_sets [s] seen))) ∧
       names s r ∧ succeeded r = reaches_instance seen s.
Proof.
  intros H. rewrite exec_settled. destruct s as [|x n v|x n]; cbn.
  - eauto.
  - rewrite (bool_decide_ext _ _ (names_lookup _ _ x H)).
    case_bool_decide; eauto.
  - rewrite (bool_decide_ext _ _ (names_lookup _ _ x H)).
    case_bool_decide; [|eauto]. eexists. split_and!; [done| |done].
    intros l. by destruct (m !! n).
Qed.

Lemma effective_sets_cons s prog seen :
  effective_sets (s :: prog) seen
  = (effective_sets [s] seen ++ effective_sets prog (seen ++ [s]))%list.
Proof. cbn. by rewrite app_nil_r. Qed.

Lemma apply_sets_app m l1 l2 :
  apply_sets m (l1 ++ l2) = apply_sets (apply_sets m l1) l2.
Proof. apply foldl_app. Qed.

Lemma run_settled prog seen env m outs w :
  Forall2 names seen env →
  run prog env (settled m) = (outs, w) →
  w = settled (apply_sets m (effective_sets prog seen)) ∧
  Forall2 names prog outs ∧
  ∀ k s r, prog !! k = Some s → outs !! k = Some r →
           succeeded r = reaches_instance (seen ++ take k prog)%list s.
Proof.
  revert seen env m outs w.
  induction prog as [|s prog IH]; intros seen env m outs w Hn Hrun.
  - injection Hrun as <- <-. split_and!; [done|constructor|done].
  - cbn [run] in Hrun.
    destruct (exec_settled_names seen env s m Hn) as (r & He & Hr & Hs).
    rewrite He in Hrun.
    destruct (run prog (env ++ [r])%list _) as [rs w2] eqn:Hrest.
    injection Hrun as <- <-.
    destruct (IH _ _ _ _ _ (names_snoc _ _ _ _ Hn Hr) Hrest)
      as (-> & Hns & Hk).
    split_and!.
    + by rewrite (effective_sets_cons s prog), apply_sets_app.
    + by constructor.
    + intros [|k] s' r' Hs' Hr'; cbn in Hs', Hr'.
      * injection Hs' as <-. injection Hr' as <-.
        by rewrite app_nil_r.
      * rewrite (Hk k s' r' Hs' Hr'). cbn [take].
        by rewrite <- app_assoc.
Qed.

Lemma run_fresh prog seen env outs w :
  Forall2 names seen env → New_SettingsManager ∉ seen →
  run prog env fresh_world = (outs, w) →
  w = (if bool_decide (New_SettingsManager ∈ prog)
       then settled (apply_sets {["theme" := "dark"]} (effective_sets prog seen))
       else fresh_world) ∧
  Forall2 names prog outs ∧
  ∀ k s r, prog !! k = Some s → outs !! k = Some r →
           succeeded r = reaches_instance (seen ++ take k prog)%list s.
Proof.
  revert seen env outs w.
  induction prog as [|s prog IH]; intros seen env outs w Hn Hseen Hrun.
  - injection Hrun as <- <-. split_and!; [done|constructor|done].
  - cbn [run] in Hrun. rewrite exec_fresh in Hrun.
    destruct (decide (s = New_SettingsManager)) as [->|Hs].
    + destruct (run prog _ (settled _)) as [rs w2] eqn:Hrest.
      injection Hrun as <- <-.
      destruct (run_settled _ (seen ++ [New_SettingsManager])%list _ _ _ _
                  (names_snoc _ _ New_SettingsManager _ Hn eq_refl) Hrest)
        as (-> & Hns & Hk).
      rewrite bool_decide_eq_true_2 by left.
      split_and!; [done|by constructor|].
      intros [|k] s' r' Hs' Hr'; cbn in Hs', Hr'.
      * by injection Hs' as <-; injection Hr' as <-.
      * rewrite (Hk k s' r' Hs' Hr'). cbn [take]. by rewrite <- app_assoc.
    + assert (reaches_instance seen s = false) as Hreach.
      { destruct s as [|x n v|x n]; [done|..]; cbn;
          apply bool_decide_eq_false_2; by intros ?%list_elem_of_lookup_2. }
      assert (∃ e, exec env s fresh_world = (Raise e, fresh_world)) as [e He].
      { rewrite exec_fresh. destruct s; [done|eauto..]. }
      rewrite <- exec_fresh, He in Hrun.
      destruct (run prog _ fresh_world) as [rs w2] eqn:Hrest.
      injection Hrun as <- <-.
      assert (names s (Raise e)) as Hr by (by destruct s).
      assert (New_SettingsManager ∉ (seen ++ [s])%list) as Hseen'.
      { rewrite elem_of_app, list_elem_of_singleton.
        intros [?|?]; [done|congruence]. }
      destruct (IH _ _ _ _ (names_snoc _ _ _ _ Hn Hr) Hseen' Hrest)
        as (-> & Hns & Hk).
      split_and!.
      * rewrite (effective_sets_cons s prog).
        replace (effective_sets [s] seen) with (@nil (string * string)).
        2:{ destruct s; cbn in *; try done. by rewrite Hreach. }
        cbn [app].
        rewrite (bool_decide_ext (New_SettingsManager ∈ s :: prog)
                   (New_SettingsManager ∈ prog)); [done|].
        rewrite elem_of_cons. split; [intros [?|?]; [congruence|done]|by right].
      * by constructor.
      * intros [|k] s' r' Hs' Hr'; cbn in Hs', Hr'.
        -- injection Hs' as <-; injection Hr' as <-.
           by rewrite app_nil_r, Hreach.
        -- rewrite (Hk k s' r' Hs' Hr'). cbn [take]. by rewrite <- app_assoc.
Qed.

(** X1, the settings after a program that constructs the instance are the
    default [{'theme': 'dark'}] overwritten, in order, by the [set_setting]
    calls made on names bound by an earlier [SettingsManager()]; nothing else
    of the program matters, and the heap holds the instance and its
    dictionary and nothing more. *)
Theorem settings_are_effective_sets prog outs w :
  run prog [] fresh_world = (outs, w) →
  New_SettingsManager ∈ prog →
  w = settled (apply_sets {["theme" := "dark"]} (effective_sets prog [])).
Proof.
  intros Hrun Hnew.
  destruct (run_fresh prog [] [] outs w) as (-> & _); [constructor| |done|].
  { by intros ?%elem_of_nil. }
  by rewrite bool_decide_eq_true_2.
Qed.

Lemma settings_are_effective_sets_witness :
  (run scenario [] fresh_world).2
  = settled (apply_sets {["theme" := "dark"]} [("theme", "light"); ("font", "serif")]).
Proof.
  apply (settings_are_effective_sets scenario (run scenario [] fresh_world).1).
  - by destruct (run scenario [] fresh_world).
  - by left.
Defined.


(** X3, which statements raise: a statement of a program succeeds exactly
    when it is a [SettingsManager()] or a method call whose receiver names
    an earlier [SettingsManager()] statement. *)
Theorem statement_succeeds_iff prog outs w k s r :
  run prog [] fresh_world = (outs, w) →
  prog !! k = Some s → outs !! k = Some r →
  succeeded r = reaches_instance (take k prog) s.
Proof.
  intros Hrun Hs Hr.
  destruct (run_fresh prog [] [] outs w) as (_ & _ & Hk);
    [constructor|by intros ?%elem_of_nil|done|].
  apply (Hk k s r Hs Hr).
Qed.


Lemma apply_sets_lookup sets m name :
  apply_sets m sets !! name
  = match last_set name sets with
    | Some v => Some v
    | None => m !! name
    end.
Proof.
  revert m. induction sets as [|[n v] sets IH]; intros m; [done|].
  change (apply_sets m ((n, v) :: sets)) with (apply_sets (<[n := v]> m) sets).
  rewrite IH. unfold last_set. rewrite filter_cons. cbn [fst].
  case_decide as Hn.
  - subst n. rewrite last_cons.
    destruct (last (filter _ sets)) as [[n' v']|]; [done|].
    cbn. by rewrite lookup_insert_eq.
  - destruct (last (filter _ sets)) as [[n' v']|]; [done|].
    cbn. by rewrite lookup_insert_ne.
Qed.

Section shared_instance_more.
Context (prog : list stmt) (outs : list (outcome value)) (w : World).
Context (i : nat) (self : loc).
Hypothesis Hrun : run prog [] fresh_world = (outs, w).
Hypothesis Hacq : acquired prog outs !! i = Some (Ok (VRef self)).

Lemma reachable_settled :
  self = 0 ∧
  w = settled (apply_sets {["theme" := "dark"]} (effective_sets prog [])).
Proof using Hrun Hacq.
  destruct (acquired_initialized _ _ _ _ _ Hrun Hacq) as (Hi & _).
  destruct (run_fresh prog [] [] outs w) as (Hw & _);
    [constructor|by intros ?%elem_of_nil|done|].
  case_bool_decide; subst w; [|done].
  cbn in Hi. by injection Hi as <-.
Qed.



(** X6, the last write wins: two [set_setting] calls on the same name
    leave the state the second call alone would leave; in particular a
    repeated call changes nothing more. *)
Theorem set_setting_overwrite name v1 v2 :
  set_setting self name v2 (set_setting self name v1 w).2
  = set_setting self name v2 w.
Proof using Hrun Hacq.
  destruct reachable_settled as (-> & ->).
  rewrite !set_setting_settled. cbn [snd]. rewrite set_setting_settled.
  by rewrite insert_insert_eq.
Qed.

(** X7, [set_setting] calls on different names commute: either order
    leaves the same state. *)
Theorem set_setting_commute n1 v1 n2 v2 :
  n1 ≠ n2 →
  set_setting self n2 v2 (set_setting self n1 v1 w).2
  = set_setting self n1 v1 (set_setting self n2 v2 w).2.
Proof using Hrun Hacq.
  intros Hne. destruct reachable_settled as (-> & ->).
  rewrite !set_setting_settled. cbn [snd]. rewrite !set_setting_settled.
  by rewrite insert_insert_ne.
Qed.

(** X8, what the guard of [__new__] prevents: [_initialize] run again on
    the shared instance binds [_settings] to a new dictionary holding only
    the default, so every setting made before is lost to the instance; the
    old dictionary itself is left as it was. *)
Theorem initialize_again_resets :
  ∃ w', _initialize self w = (Ok VNone, w') ∧
    settings_of w' self = Some {["theme" := VStr "dark"]} ∧
    settings_ref w' self = Some (length (heap w)) ∧
    (∀ d, settings_ref w self = Some d →
          d ≠ length (heap w) ∧ dict_at w' d = dict_at w d) ∧
    _instance w' = _instance w ∧
    initialize_calls w' = S (initialize_calls w).
Proof using Hrun Hacq.
  destruct reachable_settled as (-> & ->).
  set (m := apply_sets _ _). eexists. split; [reflexivity|].
  split_and!; try done.
  intros d [= <-]. done.
Qed.

(** X14, what [get_setting] returns after a program: the value of the
    last [set_setting] of that name made on a name bound by
    [SettingsManager()]; without one, ['dark'] for ['theme'] and [None] for
    any other name. *)
Theorem get_setting_last_set name :
  get_setting self name w
  = (Ok match last_set name (effective_sets prog []) with
        | Some v => VStr v
        | None => if decide (name = "theme") then VStr "dark" else VNone
        end, w).
Proof using Hrun Hacq.
  destruct reachable_settled as (-> & ->).
  rewrite get_setting_settled, apply_sets_lookup.
  destruct (last_set _ _); [done|]. rewrite lookup_singleton.
  case_decide; case_decide; done.
Qed.

End shared_instance_more.

Lemma run_app p1 p2 env w :
  run (p1 ++ p2) env w =
  let '(o1, w1) := run p1 env w in
  let '(o2, w2) := run p2 (env ++ o1)%list w1 in
  ((o1 ++ o2)%list, w2).
Proof.
  revert env w. induction p1 as [|s p1 IH]; intros env w; cbn [run app].
  - rewrite app_nil_r. by destruct (run p2 env w).
  - destruct (exec env s w) as [r w1]. rewrite IH.
    destruct (run p1 _ w1) as [o1 w2]. rewrite <- app_assoc. cbn [app].
    by destruct (run p2 _ w2).
Qed.

Lemma run_length prog env w : length (run prog env w).1 = length prog.
Proof.
  revert env w. induction prog as [|s prog IH]; intros env w; [done|].
  cbn [run]. destruct (exec env s w) as [r w1].
  specialize (IH (env ++ [r])%list w1).
  destruct (run prog _ w1). cbn in *. by rewrite IH.
Qed.

Lemma lookup_after {A} (l1 l2 : list A) k :
  (l1 ++ l2)%list !! (length l1 + k) = l2 !! k.
Proof. rewrite lookup_app_r by lia. f_equal. lia. Qed.

Lemma notebook_cells_settled env m :
  run (notebook_cells (length env)) env (settled m)
  = ([Ok (VRef 0); Ok VNone; Ok (VStr "light");
      Ok (VRef 0); Ok (VStr "light")],
     settled (<["theme" := "light"]> m)).
Proof.
  unfold notebook_cells. cbn [run]. rewrite !exec_settled.
  rewrite (bool_decide_eq_true_2 _ (list_lookup_middle env [] _ _ eq_refl)).
  rewrite exec_settled, <- app_assoc. cbn [app].
  rewrite (bool_decide_eq_true_2 _ (list_lookup_middle env _ _ _ eq_refl)).
  rewrite lookup_insert_eq. cbn [from_option].
  rewrite !exec_settled, <- !app_assoc. cbn [app].
  rewrite lookup_after. cbn [lookup list_lookup].
  rewrite bool_decide_eq_true_2 by done.
  by rewrite lookup_insert_eq.
Qed.

Lemma run_construct_first prog env :
  run (New_SettingsManager :: prog) env fresh_world
  = run (New_SettingsManager :: prog) env (settled {["theme" := "dark"]}).
Proof.
  cbn [run].
  by rewrite exec_fresh, (exec_settled env New_SettingsManager).
Qed.

(** X9, the cells of the Singleton notebook show their recorded outputs in
    every session: run after any earlier statements, they give ['light']
    for [sm_first.get_setting('theme')] and for
    [sm_second.get_setting('theme')], and [sm_first] and [sm_second] are the
    same reference, so that the assertion on their [id] holds. *)
Theorem notebook_cells_replay pre :
  ∃ self,
    drop (length pre)
      (run (pre ++ notebook_cells (length pre)) [] fresh_world).1
    = [Ok (VRef self); Ok VNone; Ok (VStr "light");
       Ok (VRef self); Ok (VStr "light")].
Proof.
  exists 0. rewrite run_app.
  pose proof (run_length pre [] fresh_world) as Hlen.
  destruct (run pre [] fresh_world) as [o1 w1] eqn:Hpre. cbn [fst app] in *.
  destruct (run_fresh pre [] [] o1 w1) as (Hw & _);
    [constructor|by intros ?%elem_of_nil|done|].
  assert (∃ m, run (notebook_cells (length o1)) o1 w1
     = ([Ok (VRef 0); Ok VNone; Ok (VStr "light");
         Ok (VRef 0); Ok (VStr "light")], settled m)) as [m Hcells].
  { case_bool_decide; subst w1.
    - eexists. apply notebook_cells_settled.
    - eexists. rewrite <- (notebook_cells_settled o1 {["theme" := "dark"]}).
      apply run_construct_first. }
  rewrite <- Hlen, Hcells. cbn [fst]. by rewrite drop_app_length.
Qed.

(** ** The logger classes *)

(** X10, [Logger] is abstract: [Logger()] raises [TypeError] and creates
    nothing, while each class derived from it, overriding [log], is
    instantiated to a new object without attributes. *)
Theorem abstract_logger_not_instantiable cls w :
  base cls = Some Logger →
  instantiate Logger w = (Raise TypeError, w) ∧
  instantiate cls w
  = (Ok (VRef (length (heap w))), with_new w (Instance cls ∅)).
Proof.
  intros Hb. split; [done|].
  apply instantiate_concrete. by destruct cls.
Qed.

Lemma abstract_logger_not_instantiable_witness :
  instantiate Logger fresh_world = (Raise TypeError, fresh_world) ∧
  instantiate FileLogger fresh_world
  = (Ok (VRef 0), with_new fresh_world (Instance FileLogger ∅)).
Proof. apply (abstract_logger_not_instantiable FileLogger). reflexivity. Defined.

Lemma create_logger_Ok t w r w1 :
  create_logger t w = (Ok r, w1) →
  ∃ cls, base cls = Some Logger ∧ r = VRef (length (heap w)) ∧
         w1 = with_new w (Instance cls ∅).
Proof.
  intros (-> & cls & Hcls & ->)%create_logger_new.
  exists cls. split; [|done].
  repeat (apply elem_of_cons in Hcls as [->|Hcls]; [done|]).
  by apply elem_of_nil in Hcls.
Qed.

(** X11, every product of the factory is a [Logger] and answers [log]:
    whatever accepted type it was asked for, [create_logger] returns an
    instance of a class derived from [Logger], on which [log(message)]
    returns [None] for every message and changes nothing. *)
Theorem factory_product_logs t w r w1 message :
  create_logger t w = (Ok r, w1) →
  isinstance w1 r Logger = true ∧
  call_log r [message] w1 = (Ok VNone, w1).
Proof.
  intros (cls & Hb & -> & ->)%create_logger_Ok.
  unfold isinstance, call_log, mbind, Py_bind, get_world.
  rewrite with_new_lookup.
  by destruct cls.
Qed.

(** X12, [log] takes exactly one message: on a product of the factory a
    call with no argument, as [logger.log()] in the usage shown in the
    notebook, or with more than one, raises [TypeError] and changes
    nothing. *)
Theorem log_arity t w r w1 args :
  create_logger t w = (Ok r, w1) →
  length args ≠ 1 →
  call_log r args w1 = (Raise TypeError, w1).
Proof.
  intros (cls & Hb & -> & ->)%create_logger_Ok Hlen.
  unfold call_log, mbind, Py_bind, get_world.
  rewrite with_new_lookup.
  destruct cls; try done; by destruct args as [|? [|? ?]].
Qed.

Lemma create_logger_Raise t w e w1 :
  create_logger t w = (Raise e, w1) → w1 = w.
Proof.
  unfold create_logger, raise.
  destruct (eq_str t "console");
    [|destruct (eq_str t "file"); [|destruct (eq_str t "database")]];
    try (rewrite instantiate_concrete by done); congruence.
Qed.

Lemma create_loggers_heap types w outs w' :
  create_loggers types w = (outs, w') →
  ∃ news,
    w' = with_heap w (heap w ++ news) ∧
    returned outs = VRef <$> seq (length (heap w)) (length news) ∧
    Forall (λ o, ∃ cls, base cls = Some Logger ∧ o = Instance cls ∅) news.
Proof.
  revert w outs w'. induction types as [|t types IH]; intros w outs w' Hrun.
  - injection Hrun as <- <-. exists []. rewrite app_nil_r. by destruct w.
  - cbn [create_loggers] in Hrun.
    destruct (create_logger t w) as [[r|e] w1] eqn:Ht;
      destruct (create_loggers types w1) as [rs w2] eqn:Hrest;
      injection Hrun as <- <-;
      destruct (IH _ _ _ Hrest) as (news & -> & Hret & Hnews).
    + apply create_logger_Ok in Ht as (cls & Hb & -> & ->).
      exists (Instance cls ∅ :: news). split_and!.
      * unfold with_new, with_heap. cbn. by rewrite <- app_assoc.
      * change (returned (Ok (VRef (length (heap w))) :: rs))
          with (VRef (length (heap w)) :: returned rs).
        rewrite Hret. cbn. rewrite length_app. cbn. by rewrite Nat.add_1_r.
      * constructor; eauto.
    + apply create_logger_Raise in Ht as ->. by exists news.
Qed.

Local Instance VRef_inj : Inj (=) (=) VRef.
Proof. by intros l1 l2 [= ->]. Qed.

(** X13, the factory never hands out an object twice: over any sequence
    of [create_logger] calls, the instances returned are pairwise distinct,
    each is a new object of a class derived from [Logger] that did not
    exist before the sequence, the heap grows by exactly one object for
    each successful call (none for a call that raises), and the objects
    that existed are left as they were. *)
Theorem factory_products_distinct types w outs w' :
  create_loggers types w = (outs, w') →
  NoDup (returned outs) ∧
  length (heap w') = length (heap w) + length (returned outs) ∧
  (∀ v, v ∈ returned outs →
     ∃ l cls, v = VRef l ∧ heap w !! l = None ∧
              heap w' !! l = Some (Instance cls ∅) ∧ base cls = Some Logger) ∧
  (∀ l o, heap w !! l = Some o → heap w' !! l = Some o).
Proof.
  intros (news & -> & Hret & Hnews)%create_loggers_heap. rewrite Hret.
  split_and!.
  - apply (NoDup_fmap_2 _), NoDup_seq.
  - cbn. by rewrite length_app, length_fmap, length_seq.
  - intros v (l & -> & Hl)%list_elem_of_fmap.
    apply elem_of_seq in Hl as [Hl1 Hl2].
    destruct (lookup_lt_is_Some_2 news (l - length (heap w))) as [o Ho];
      [lia|].
    destruct (Forall_lookup_1 _ _ _ _ Hnews Ho) as (cls & Hb & ->).
    exists l, cls. split_and!; [done|by apply lookup_ge_None_2| |done].
    cbn. by rewrite lookup_app_r.
  - intros l o Hl. cbn. by apply lookup_app_l_Some.
Qed.


Lemma statement_succeeds_iff_witness :
  succeeded (Raise AttributeError)
  = reaches_instance [New_SettingsManager; Get_setting 0 "theme"]
      (Set_setting 1 "theme" "light").
Proof.
  apply (statement_succeeds_iff
           [New_SettingsManager; Get_setting 0 "theme";
            Set_setting 1 "theme" "light"]
           [Ok (VRef 0); Ok (VStr "dark"); Raise AttributeError]
           (first_world fresh_world) 2); reflexivity.
Defined.



Lemma set_setting_overwrite_witness :
  set_setting 0 "theme" "light"
    (set_setting 0 "theme" "blue" (first_world fresh_world)).2
  = set_setting 0 "theme" "light" (first_world fresh_world).
Proof.
  apply (set_setting_overwrite [New_SettingsManager] [Ok (VRef 0)]
           (first_world fresh_world) 0 0); reflexivity.
Defined.

Lemma set_setting_commute_witness :
  set_setting 0 "font" "serif"
    (set_setting 0 "theme" "light" (first_world fresh_world)).2
  = set_setting 0 "theme" "light"
      (set_setting 0 "font" "serif" (first_world fresh_world)).2.
Proof.
  apply (set_setting_commute [New_SettingsManager] [Ok (VRef 0)]
           (first_world fresh_world) 0 0); [reflexivity..|discriminate].
Defined.

Lemma initialize_again_resets_witness :
  ∃ w', _initialize 0 (settled {["theme" := "light"]}) = (Ok VNone, w') ∧
    settings_of w' 0 = Some {["theme" := VStr "dark"]} ∧
    settings_ref w' 0 = Some (length (heap (settled {["theme" := "light"]}))) ∧
    (∀ d, settings_ref (settled {["theme" := "light"]}) 0 = Some d →
          d ≠ length (heap (settled {["theme" := "light"]})) ∧
          dict_at w' d = dict_at (settled {["theme" := "light"]}) d) ∧
    _instance w' = _instance (settled {["theme" := "light"]}) ∧
    initialize_calls w'
    = S (initialize_calls (settled {["theme" := "light"]})).
Proof.
  apply (initialize_again_resets
           [New_SettingsManager; Set_setting 0 "theme" "light"]
           [Ok (VRef 0); Ok VNone] (settled {["theme" := "light"]}) 0 0).
  - vm_compute. reflexivity.
  - reflexivity.
Defined.

Lemma get_setting_last_set_witness :
  get_setting 0 "theme" (settled {["theme" := "light"]})
  = (Ok (VStr "light"), settled {["theme" := "light"]}).
Proof.
  apply (get_setting_last_set
           [New_SettingsManager; Set_setting 0 "theme" "blue";
            Set_setting 0 "theme" "light"]
           [Ok (VRef 0); Ok VNone; Ok VNone]
           (settled {["theme" := "light"]}) 0 0).
  - vm_compute. reflexivity.
  - reflexivity.
Defined.

Lemma factory_product_logs_witness :
  isinstance (with_new fresh_world (Instance DatabaseLogger ∅)) (VRef 0) Logger
  = true ∧
  call_log (VRef 0) [VStr "started"]
    (with_new fresh_world (Instance DatabaseLogger ∅))
  = (Ok VNone, with_new fresh_world (Instance DatabaseLogger ∅)).
Proof.
  apply (factory_product_logs (VStr "database") fresh_world). reflexivity.
Defined.

Lemma log_arity_witness :
  call_log (VRef 0) [] (with_new fresh_world (Instance ConsoleLogger ∅))
  = (Raise TypeError, with_new fresh_world (Instance ConsoleLogger ∅)).
Proof.
  apply (log_arity (VStr "console") fresh_world); [reflexivity|].
  cbn. lia.
Defined.

Lemma factory_products_distinct_witness :
  NoDup [VRef 0; VRef 1] ∧
  length [Instance ConsoleLogger ∅; Instance FileLogger ∅]
  = length (heap fresh_world) + length [VRef 0; VRef 1] ∧
  (∀ v, v ∈ [VRef 0; VRef 1] →
     ∃ l cls, v = VRef l ∧ heap fresh_world !! l = None ∧
       [Instance ConsoleLogger ∅; Instance FileLogger ∅] !! l
       = Some (Instance cls ∅) ∧ base cls = Some Logger) ∧
  (∀ l o, heap fresh_world !! l = Some o →
          [Instance ConsoleLogger ∅; Instance FileLogger ∅] !! l = Some o).
Proof.
  apply (factory_products_distinct
           [VStr "console"; VStr "Console"; VStr "file"] fresh_world
           [Ok (VRef 0); Raise (ValueError "Invalid logger type argument");
            Ok (VRef 1)]
           (with_heap fresh_world
              [Instance ConsoleLogger ∅; Instance FileLogger ∅])).
  reflexivity.
Defined.
